(** * mserialize::string_view

    A shallow embedding of [include/mserialize/string_view.hpp]: a read-only,
    non-owning view [(pointer, length)] over characters that live in memory
    owned by somebody else.

    - Memory is a map from addresses to characters, total so that every read
      has a value; the null pointer is address [0].  Addresses are integers;
      pointer arithmetic inside one object never wraps, so [p + n] on pointers
      is plain addition in [Z].
    - [size_type] is [std::size_t]: an unsigned integer of [w] bits.  Every
      arithmetic operation the source performs on a [size_type] is written
      here with its reduction modulo [2 ^ w].
    - The only checked failure is [std::out_of_range], thrown by [substr].
    - The loops of [search] have no syntactic bound; they are embedded with
      fuel and return [None] when the fuel runs out. *)

From Stdlib Require Import ZArith Lia Bool List.
From Stdlib Require Import Strings.Byte Strings.String Strings.Ascii.
Import ListNotations.

Local Open Scope Z_scope.

(** ** Characters and memory *)

(** [value_type = char]. *)
Definition value_type := byte.

(** [const_pointer = const char*]: an address. *)
Definition const_pointer := Z.

(** The storage the views look into.  A view can only read it. *)
Definition memory := const_pointer -> value_type.

Definition nullptr : const_pointer := 0.

(** [std::char_traits<char>::lt]: characters are ordered as [unsigned char]. *)
Definition char_lt (a b : value_type) : bool :=
  (Byte.to_N a <? Byte.to_N b)%N.

(** The library function [std::char_traits<char>::compare(s1, s2, n)], as the
    C++ standard defines it: the first position among the [n] where the two
    runs differ decides the sign, and the result is [0] when there is none. *)
Fixpoint compare_loop (mem : memory) (s1 s2 : const_pointer) (n : nat) : Z :=
  match n with
  | O => 0
  | S k =>
      if char_lt (mem s1) (mem s2) then -1
      else if char_lt (mem s2) (mem s1) then 1
      else compare_loop mem (s1 + 1) (s2 + 1) k
  end.

Definition compare (mem : memory) (s1 s2 : const_pointer) (n : Z) : Z :=
  compare_loop mem s1 s2 (Z.to_nat n).

(** [n] characters of the run at [p] equal those of the run at [q]. *)
Definition same_bytes (mem : memory) (p q : const_pointer) (n : Z) : Prop :=
  forall i, 0 <= i < n -> mem (p + i) = mem (q + i).

(** ** The view *)

Record string_view : Type := mk_string_view {
  _ptr : const_pointer;
  _len : Z
}.

(** [std::out_of_range(what)]. *)
Inductive exception : Type :=
| out_of_range (what : string).

(** What one pass of the inner loop of [search] ends with: a [return] of the
    whole function, or a [break] that gives control back to the outer loop. *)
Inductive inner_exit : Type :=
| Return (p : const_pointer)
| Break.

(** An owning [std::string]: its buffer address and its characters. *)
Record std_string : Type := mk_std_string {
  str_data : const_pointer;
  str_chars : list value_type
}.

(** The buffer of [s] holds the characters of [s]. *)
Definition str_stored (mem : memory) (s : std_string) : Prop :=
  forall i, (i < List.length (str_chars s))%nat ->
    mem (str_data s + Z.of_nat i) = nth i (str_chars s) x00.

(** [std::string(first, last)]: the characters of the range [[first, last)]. *)
Fixpoint read_range (mem : memory) (first : const_pointer) (n : nat)
  : list value_type :=
  match n with
  | O => []
  | S k => mem first :: read_range mem (first + 1) k
  end.

Definition string_of_range (mem : memory) (first last : const_pointer)
  : list value_type :=
  read_range mem first (Z.to_nat (last - first)).

(** Storage for examples: [chars] placed at address [p] on top of [mem]. *)
Definition place (p : const_pointer) (chars : list value_type) (mem : memory)
  : memory :=
  fun a =>
    if (p <=? a) && (a <? p + Z.of_nat (List.length chars))
    then nth (Z.to_nat (a - p)) chars x00
    else mem a.

Definition blank : memory := fun _ => x00.

(** A view object together with the storage around it: what a [void] member
    function of the view can, in principle, act on. *)
Record machine : Type := mk_machine {
  heap : memory;
  self : string_view
}.



(** The loop of the library function [strlen]: walk from [p] to the first
    zero character, counting in [n]. *)
Fixpoint strlen_loop (fuel : nat) (mem : memory) (p : const_pointer) (n : Z)
  : option Z :=
  match fuel with
  | O => None
  | S fuel' =>
      if Byte.eqb (mem p) x00 then Some n
      else strlen_loop fuel' mem (p + 1) (n + 1)
  end.

(** A usual width of [std::size_t], for the concrete runs. *)
Definition size_t_bits : positive := 64.

Section StringView.

(** The width of [std::size_t] in bits. *)
Variable w : positive.

Definition modulus : Z := 2 ^ Z.pos w.

(** Conversion to [size_type]. *)
Definition to_size (z : Z) : Z := z mod modulus.

(** [static constexpr size_type npos = size_type(-1)]. *)
Definition npos : Z := to_size (-1).

(** A value of type [size_type]. *)
Definition is_size (n : Z) : Prop := 0 <= n < modulus.

(** *** Constructors *)

(** [constexpr string_view() = default], with the member initialisers
    [_ptr = nullptr] and [_len = 0]. *)
Definition string_view_default : string_view :=
  {| _ptr := nullptr; _len := 0 |}.

(** [std::string::size()], a [size_type]. *)
Definition str_size (s : std_string) : Z :=
  to_size (Z.of_nat (List.length (str_chars s))).

(** [string_view(const std::string& str)]. *)
Definition string_view_of_string (str : std_string) : string_view :=
  {| _ptr := str_data str; _len := str_size str |}.

(** [strlen(str)], a [size_t]. *)
Definition strlen (fuel : nat) (mem : memory) (str : const_pointer)
  : option Z :=
  option_map to_size (strlen_loop fuel mem str 0).

(** [string_view(const char* str)]. *)
Definition string_view_of_cstr (fuel : nat) (mem : memory)
    (str : const_pointer) : option string_view :=
  match strlen fuel mem str with
  | None => None
  | Some len => Some {| _ptr := str; _len := len |}
  end.

(** [string_view(const char* str, size_type len)]. *)
Definition string_view_of_range (str : const_pointer) (len : Z) : string_view :=
  {| _ptr := str; _len := len |}.

(** *** Iterators, capacity, element access *)

Definition cbegin (v : string_view) : const_pointer := _ptr v.
Definition cend (v : string_view) : const_pointer := _ptr v + _len v.
Definition size (v : string_view) : Z := _len v.
Definition empty (v : string_view) : bool := _len v =? 0.
Definition data (v : string_view) : const_pointer := _ptr v.
Definition at_ (mem : memory) (v : string_view) (pos : Z) : value_type :=
  mem (_ptr v + pos).
Definition front (mem : memory) (v : string_view) : value_type :=
  mem (_ptr v + 0).
Definition back (mem : memory) (v : string_view) : value_type :=
  mem (_ptr v + to_size (_len v - 1)).

(** *** Modifiers *)

Definition clear (v : string_view) : string_view :=
  {| _ptr := _ptr v; _len := 0 |}.

Definition remove_prefix (v : string_view) (n : Z) : string_view :=
  let n := if n >? _len v then _len v else n in
  {| _ptr := _ptr v + n; _len := to_size (_len v - n) |}.

Definition remove_suffix (v : string_view) (n : Z) : string_view :=
  let n := if n >? _len v then _len v else n in
  {| _ptr := _ptr v; _len := to_size (_len v - n) |}.

(** A modifier changes the two fields of the view it is called on; the
    characters are behind a [const char*] and stay as they are. *)
Definition modify (f : string_view -> string_view) (st : machine) : machine :=
  {| heap := heap st; self := f (self st) |}.

(** *** String operations *)

Definition to_string (mem : memory) (v : string_view) : list value_type :=
  string_of_range mem (cbegin v) (cend v).

Definition substr (v : string_view) (pos n : Z) : exception + string_view :=
  if pos >? size v then inl (out_of_range "mserialize::string_view::substr")
  else
    let n := if (n =? npos) || (to_size (pos + n) >? size v)
             then to_size (size v - pos) else n in
    inr (string_view_of_range (data v + pos) n).

(** *** Searches *)

Definition starts_with_char (mem : memory) (v : string_view) (c : value_type)
  : bool :=
  negb (empty v) && Byte.eqb c (front mem v).

Definition starts_with (mem : memory) (v x : string_view) : bool :=
  (_len v >=? _len x) && (compare mem (_ptr v) (_ptr x) (_len x) =? 0).

Definition ends_with_char (mem : memory) (v : string_view) (c : value_type)
  : bool :=
  negb (empty v) && Byte.eqb c (back mem v).

Definition ends_with (mem : memory) (v x : string_view) : bool :=
  (_len v >=? _len x) &&
  (compare mem (_ptr v + _len v - _len x) (_ptr x) (_len x) =? 0).

(** The inner [for] of [search]: [it] walks the text from [first], [s_it]
    walks the pattern. *)
Fixpoint search_inner (fuel : nat) (mem : memory)
    (first last s_last it s_it : const_pointer) : option inner_exit :=
  match fuel with
  | O => None
  | S fuel' =>
      if s_it =? s_last then Some (Return first)
      else if it =? last then Some (Return last)
      else if negb (Byte.eqb (mem it) (mem s_it)) then Some Break
      else search_inner fuel' mem first last s_last (it + 1) (s_it + 1)
  end.

(** The outer [for (; ; ++first)] of [search]. *)
Fixpoint search (fuel : nat) (mem : memory)
    (first last s_first s_last : const_pointer) : option const_pointer :=
  match fuel with
  | O => None
  | S fuel' =>
      match search_inner fuel mem first last s_last first s_first with
      | None => None
      | Some (Return p) => Some p
      | Some Break => search fuel' mem (first + 1) last s_first s_last
      end
  end.

Definition find (fuel : nat) (mem : memory) (v s : string_view) (pos : Z)
  : option Z :=
  if pos >? size v then Some npos
  else if empty s then Some pos
  else
    match search fuel mem (cbegin v + pos) (cend v) (cbegin s) (cend s) with
    | None => None
    | Some iter =>
        Some (if iter =? cend v then npos else to_size (iter - cbegin v))
    end.

(** [find(char c, size_type pos)] builds the view [string_view(&c, 1)] over the
    one character and delegates; [c_addr] is where the argument [c] lives. *)
Definition find_char (fuel : nat) (mem : memory) (v : string_view)
    (c_addr : const_pointer) (pos : Z) : option Z :=
  find fuel mem v (string_view_of_range c_addr 1) pos.

(** [find(const char* s, size_type pos, size_type n)]. *)
Definition find_range (fuel : nat) (mem : memory) (v : string_view)
    (s : const_pointer) (pos n : Z) : option Z :=
  find fuel mem v (string_view_of_range s n) pos.

(** [find(const char* s, size_type pos)]. *)
Definition find_cstr (fuel : nat) (mem : memory) (v : string_view)
    (s : const_pointer) (pos : Z) : option Z :=
  match string_view_of_cstr fuel mem s with
  | None => None
  | Some sv => find fuel mem v sv pos
  end.

(** *** Free operators *)

Definition op_eq (mem : memory) (x y : string_view) : bool :=
  if negb (size x =? size y) then false
  else compare mem (data x) (data y) (size x) =? 0.

Definition op_ne (mem : memory) (x y : string_view) : bool :=
  negb (op_eq mem x y).



(** The needle of length [n] at [s_first] occurs in the text at address [q],
    inside the text that ends at [last]. *)
Definition fits (mem : memory) (last s_first n q : Z) : Prop :=
  q + n <= last /\ same_bytes mem q s_first n.

(** The needle [s] occurs in [v] at offset [r]. *)
Definition occurs_at (mem : memory) (v s : string_view) (r : Z) : Prop :=
  r + size s <= size v /\
  forall i, 0 <= i < size s -> at_ mem v (r + i) = at_ mem s i.

(** ** Example storage

    ["hello world"] at address 100, ["world"] at 200, ["xyz"] at 300 and a
    second copy of ["world"] at 400. *)

Definition demo_memory : memory :=
  place 100 (list_byte_of_string "hello world")
    (place 200 (list_byte_of_string "world")
       (place 300 (list_byte_of_string "xyz")
          (place 400 (list_byte_of_string "world") blank))).

Definition hello_world : string_view := mk_string_view 100 11.
Definition hello : string_view := mk_string_view 100 5.
Definition world : string_view := mk_string_view 200 5.
Definition xyz : string_view := mk_string_view 300 3.
Definition world' : string_view := mk_string_view 400 5.

Definition he : string_view := mk_string_view 100 2.
Definition lo : string_view := mk_string_view 103 2.

(** [std::string("world")] with its buffer at address 200. *)
Definition world_string : std_string :=
  mk_std_string 200 (list_byte_of_string "world").

(** ** [compare] *)

Lemma to_N_inj (a b : byte) : Byte.to_N a = Byte.to_N b -> a = b.
Proof.
  intros H.
  assert (E : Some a = Some b)
    by (rewrite <- (Byte.of_to_N a), <- (Byte.of_to_N b), H; reflexivity).
  now inversion E.
Qed.

Lemma char_lt_irrefl (a : byte) : char_lt a a = false.
Proof. unfold char_lt. apply N.ltb_irrefl. Qed.

Lemma char_lt_none (a b : byte) :
  char_lt a b = false -> char_lt b a = false -> a = b.
Proof.
  unfold char_lt. intros H1 H2.
  apply N.ltb_ge in H1. apply N.ltb_ge in H2.
  apply to_N_inj. now apply N.le_antisymm.
Qed.

Lemma compare_loop_zero (mem : memory) (n : nat) :
  forall p q,
    compare_loop mem p q n = 0 <->
    (forall i, (i < n)%nat -> mem (p + Z.of_nat i) = mem (q + Z.of_nat i)).
Proof.
  induction n as [|k IH]; intros p q; simpl.
  - split; [intros _ i Hi; lia | reflexivity].
  - destruct (char_lt (mem p) (mem q)) eqn:Hpq.
    + split; [discriminate|].
      intros H. specialize (H 0%nat ltac:(lia)).
      rewrite !Z.add_0_r in H. rewrite H, char_lt_irrefl in Hpq. discriminate.
    + destruct (char_lt (mem q) (mem p)) eqn:Hqp.
      * split; [discriminate|].
        intros H. specialize (H 0%nat ltac:(lia)).
        rewrite !Z.add_0_r in H. rewrite H, char_lt_irrefl in Hqp. discriminate.
      * rewrite IH. split.
        -- intros H [|i] Hi.
           ++ rewrite !Z.add_0_r. now apply char_lt_none.
           ++ specialize (H i ltac:(lia)).
              replace (p + Z.of_nat (S i)) with (p + 1 + Z.of_nat i) by lia.
              replace (q + Z.of_nat (S i)) with (q + 1 + Z.of_nat i) by lia.
              exact H.
        -- intros H i Hi. specialize (H (S i) ltac:(lia)).
           replace (p + Z.of_nat (S i)) with (p + 1 + Z.of_nat i) in H by lia.
           replace (q + Z.of_nat (S i)) with (q + 1 + Z.of_nat i) in H by lia.
           exact H.
Qed.

Lemma compare_zero (mem : memory) (p q : const_pointer) (n : Z) :
  compare mem p q n = 0 <-> same_bytes mem p q n.
Proof.
  unfold compare, same_bytes. rewrite compare_loop_zero. split.
  - intros H i Hi. specialize (H (Z.to_nat i) ltac:(lia)).
    now rewrite Z2Nat.id in H by lia.
  - intros H i Hi. apply H. lia.
Qed.

Lemma compare_eqb (mem : memory) (p q : const_pointer) (n : Z) :
  (compare mem p q n =? 0) = true <-> same_bytes mem p q n.
Proof. rewrite Z.eqb_eq. apply compare_zero. Qed.

Lemma same_bytes_refl mem p n : same_bytes mem p p n.
Proof. intros i _. reflexivity. Qed.

Lemma same_bytes_sym mem p q n : same_bytes mem p q n -> same_bytes mem q p n.
Proof. intros H i Hi. symmetry. now apply H. Qed.

Lemma read_range_stored (mem : memory) (chars : list value_type) :
  forall p,
    (forall i, (i < List.length chars)%nat ->
       mem (p + Z.of_nat i) = nth i chars x00) ->
    read_range mem p (List.length chars) = chars.
Proof.
  induction chars as [|c cs IH]; intros p H; simpl; [reflexivity|].
  f_equal.
  - specialize (H 0%nat ltac:(simpl; lia)). simpl in H.
    now rewrite Z.add_0_r in H.
  - apply IH. intros i Hi.
    specialize (H (S i) ltac:(simpl; lia)). simpl nth in H.
    rewrite <- H. f_equal. lia.
Qed.

(** ** Equality of views *)

Lemma op_eq_true (mem : memory) (x y : string_view) :
  op_eq mem x y = true <->
  size x = size y /\ same_bytes mem (data x) (data y) (size x).
Proof.
  unfold op_eq.
  destruct (Z.eqb_spec (size x) (size y)) as [E|E]; simpl.
  - rewrite compare_eqb. tauto.
  - split; [discriminate|tauto].
Qed.

(** C6: [x == y] holds exactly when the two sizes are equal and the views
    agree at every offset below the size, whatever the two data pointers are;
    [x != y] is the negation of [x == y]; [==] is reflexive and symmetric. *)
Theorem op_eq_content (mem : memory) (x y : string_view) :
  (op_eq mem x y = true <->
     size x = size y /\
     forall i, 0 <= i < size x -> at_ mem x i = at_ mem y i) /\
  op_ne mem x y = negb (op_eq mem x y) /\
  op_eq mem x x = true /\
  op_eq mem x y = op_eq mem y x.
Proof.
  split; [apply op_eq_true|]. split; [reflexivity|]. split.
  - apply op_eq_true. split; [reflexivity|apply same_bytes_refl].
  - apply eq_true_iff_eq. rewrite !op_eq_true. split.
    + intros [E H]. split; [congruence|]. rewrite <- E. now apply same_bytes_sym.
    + intros [E H]. split; [congruence|]. rewrite <- E. now apply same_bytes_sym.
Qed.

(** Two views over different storage, same length and same characters. *)
Lemma op_eq_content_witness :
  _ptr world <> _ptr world' /\ op_eq demo_memory world world' = true.
Proof.
  split; [discriminate|].
  apply (proj1 (op_eq_content demo_memory world world')).
  split; [reflexivity|].
  intros i Hi. unfold size in Hi. simpl in Hi.
  assert (C : i = 0 \/ i = 1 \/ i = 2 \/ i = 3 \/ i = 4) by lia.
  destruct C as [->|[->|[->|[->| ->]]]]; reflexivity.
Defined.

(** ** [clear] *)

(** C9: [clear] leaves the view with length [0] and with the data pointer it
    had; the storage the view refers to is the same before and after. *)
Theorem clear_frame (st : machine) :
  _len (self (modify clear st)) = 0 /\
  _ptr (self (modify clear st)) = _ptr (self st) /\
  (forall a, heap (modify clear st) a = heap st a).
Proof. repeat split. Qed.

Lemma modulus_gt_1 : 1 < modulus.
Proof.
  unfold modulus.
  change 1 with (2 ^ 0). apply Z.pow_lt_mono_r; lia.
Qed.

Lemma to_size_small (z : Z) : is_size z -> to_size z = z.
Proof. intros H. apply Z.mod_small. exact H. Qed.

Lemma npos_eq : npos = modulus - 1.
Proof.
  pose proof modulus_gt_1.
  unfold npos, to_size.
  symmetry. apply (Z.mod_unique _ _ (-1)); lia.
Qed.

(** ** [starts_with] *)

(** C7: [v.starts_with(x)] holds exactly when [v] is at least as long as [x]
    and the first [x.size()] characters of [v] are those of [x]; an empty [x]
    is a prefix of every view. *)
Theorem starts_with_spec (mem : memory) (v x : string_view) :
  is_size (size v) -> is_size (size x) ->
  (starts_with mem v x = true <->
     size v >= size x /\
     forall i, 0 <= i < size x -> at_ mem v i = at_ mem x i) /\
  (empty x = true -> starts_with mem v x = true).
Proof.
  intros Hv Hx. unfold starts_with, size, at_, empty in *.
  assert (Iff : (_len v >=? _len x) && (compare mem (_ptr v) (_ptr x) (_len x) =? 0) = true <->
          _len v >= _len x /\ same_bytes mem (_ptr v) (_ptr x) (_len x)).
  { rewrite andb_true_iff, compare_eqb, Z.geb_le. intuition lia. }
  split; [exact Iff|].
  intros E. apply Z.eqb_eq in E. apply Iff. split; [destruct Hv; lia|].
  intros i Hi. lia.
Qed.

(** ** Views of length zero *)

(** C10: two views of length [0] are equal under [==] and not different under
    [!=], whatever their data pointers: the default view (null pointer) equals
    any cleared view (which keeps its pointer) and equals
    [v.substr(v.size())] for every view [v]. *)
Theorem empty_views_equal (mem : memory) (x y : string_view) :
  size x = 0 -> size y = 0 ->
  (op_eq mem x y = true /\ op_ne mem x y = false) /\
  (forall v, _ptr (clear v) = _ptr v /\
             op_eq mem string_view_default (clear v) = true) /\
  (forall v, exists e, substr v (size v) npos = inr e /\
                       _ptr e = _ptr v + size v /\ size e = 0 /\
                       op_eq mem e x = true).
Proof.
  intros Hx Hy.
  assert (Z : forall a b, size a = 0 -> size b = 0 -> op_eq mem a b = true).
  { intros a b Ha Hb. apply op_eq_true.
    split; [congruence|]. intros i Hi. lia. }
  split; [|split].
  - unfold op_ne. rewrite (Z x y Hx Hy). split; reflexivity.
  - intros v. split; [reflexivity|]. apply Z; reflexivity.
  - intros v. unfold substr.
    rewrite Z.gtb_ltb, Z.ltb_irrefl, Z.eqb_refl. simpl.
    rewrite Z.sub_diag. unfold to_size. rewrite Z.mod_0_l.
    + eexists. split; [reflexivity|]. repeat split. apply Z; [reflexivity|exact Hx].
    + pose proof modulus_gt_1. lia.
Qed.

(** ** [remove_prefix] *)

(** C5, as amended: when [n + m] does not overflow [size_type],
    [remove_prefix(n)] followed by [remove_prefix(m)] leaves the same pointer
    and length as one [remove_prefix(n + m)]. *)
Theorem remove_prefix_twice (v : string_view) (n m : Z) :
  is_size (size v) -> is_size n -> is_size m -> n + m < modulus ->
  remove_prefix (remove_prefix v n) m = remove_prefix v (to_size (n + m)).
Proof.
  unfold is_size, size. intros Hv Hn Hm Hnm.
  rewrite (to_size_small (n + m)) by (unfold is_size; lia).
  assert (S0 : forall z, 0 <= z < modulus -> to_size z = z)
    by (intros z Hz; now apply to_size_small).
  unfold remove_prefix. simpl. rewrite !Z.gtb_ltb.
  destruct (Z.ltb_spec (_len v) n) as [H1|H1].
  - rewrite Z.sub_diag, (S0 0) by lia.
    destruct (Z.ltb_spec (_len v) (n + m)) as [H3|H3]; [|lia].
    destruct (Z.ltb_spec 0 m) as [H2|H2].
    + rewrite !Z.sub_diag. f_equal. lia.
    + replace m with 0 by lia. rewrite !Z.sub_diag. f_equal. lia.
  - rewrite (S0 (_len v - n)) by lia.
    destruct (Z.ltb_spec (_len v - n) m) as [H2|H2];
      destruct (Z.ltb_spec (_len v) (n + m)) as [H3|H3]; try lia.
    + rewrite !Z.sub_diag. f_equal. lia.
    + f_equal; [lia|]. f_equal. lia.
Qed.

(** ** [to_string] *)

(** C8: a view made from an owning string [s], turned back into an owning
    string, has the characters of [s]: the same number of them and the same
    character at each place. *)
Theorem to_string_round_trip (mem : memory) (s : std_string) :
  str_stored mem s ->
  is_size (Z.of_nat (List.length (str_chars s))) ->
  to_string mem (string_view_of_string s) = str_chars s /\
  List.length (to_string mem (string_view_of_string s)) =
    List.length (str_chars s) /\
  (forall i, nth i (to_string mem (string_view_of_string s)) x00 =
             nth i (str_chars s) x00).
Proof.
  intros Hst Hsz.
  assert (E : to_string mem (string_view_of_string s) = str_chars s).
  { unfold to_string, string_of_range, cbegin, cend, string_view_of_string,
      str_size. simpl.
    rewrite (to_size_small _ Hsz).
    replace (Z.to_nat _) with (List.length (str_chars s)) by lia.
    apply read_range_stored. exact Hst. }
  rewrite E. repeat split.
Qed.

(** ** [substr] *)

Lemma substr_throws_iff (v : string_view) (pos n : Z) :
  (exists e, substr v pos n = inl e) <-> pos > size v.
Proof.
  unfold substr. rewrite Z.gtb_ltb.
  destruct (Z.ltb_spec (size v) pos) as [H|H]; split.
  - intros _. lia.
  - intros _. eexists. reflexivity.
  - intros [e He]. discriminate.
  - lia.
Qed.

(** Where [pos + n] does not overflow, the count is clamped as intended. *)
Lemma substr_clamped (v : string_view) (pos n : Z) :
  is_size (size v) -> 0 <= pos <= size v -> is_size n ->
  pos + n < modulus ->
  substr v pos n =
    inr (mk_string_view (_ptr v + pos) (Z.min n (size v - pos))).
Proof.
  unfold is_size, size. intros Hv Hp Hn Hw.
  unfold substr, size, data, string_view_of_range. rewrite !Z.gtb_ltb.
  destruct (Z.ltb_spec (_len v) pos) as [H|_]; [lia|].
  rewrite (to_size_small (pos + n)) by (unfold is_size; lia).
  rewrite (to_size_small (_len v - pos)) by (unfold is_size; lia).
  rewrite npos_eq.
  destruct (Z.eqb_spec n (modulus - 1)) as [E|E]; simpl.
  - do 2 f_equal. lia.
  - destruct (Z.ltb_spec (_len v) (pos + n)); do 2 f_equal; lia.
Qed.

(** The default count [npos] always gives the rest of the view. *)
Lemma substr_to_end (v : string_view) (pos : Z) :
  is_size (size v) -> 0 <= pos <= size v ->
  substr v pos npos = inr (mk_string_view (_ptr v + pos) (size v - pos)).
Proof.
  unfold is_size, size. intros Hv Hp.
  unfold substr, size, data, string_view_of_range. rewrite Z.gtb_ltb.
  destruct (Z.ltb_spec (_len v) pos) as [H|_]; [lia|].
  rewrite Z.eqb_refl. simpl.
  rewrite (to_size_small (_len v - pos)) by (unfold is_size; lia).
  reflexivity.
Qed.

(** ** [search] *)

(** The inner loop, entered with the first [j] characters already matched. *)
Lemma search_inner_spec (mem : memory) (first last s_first s_last : Z) :
  forall (fuel : nat) (j : Z),
    0 <= j <= s_last - s_first ->
    first + j <= last ->
    same_bytes mem first s_first j ->
    s_last - s_first - j + 1 <= Z.of_nat fuel ->
    exists r,
      search_inner fuel mem first last s_last (first + j) (s_first + j) = Some r /\
      match r with
      | Return p =>
          (p = first /\ first + (s_last - s_first) <= last /\
           same_bytes mem first s_first (s_last - s_first)) \/
          (p = last /\ first + (s_last - s_first) > last)
      | Break =>
          first < last /\ ~ same_bytes mem first s_first (s_last - s_first)
      end.
Proof.
  induction fuel as [|fuel IH]; intros j Hj Hroom Hsame Hfuel; [lia|].
  simpl.
  destruct (Z.eqb_spec (s_first + j) s_last) as [E1|E1].
  { eexists. split; [reflexivity|]. left.
    replace (s_last - s_first) with j by lia. auto. }
  destruct (Z.eqb_spec (first + j) last) as [E2|E2].
  { eexists. split; [reflexivity|]. right. split; [reflexivity|lia]. }
  destruct (Byte.eqb (mem (first + j)) (mem (s_first + j))) eqn:E3; simpl.
  - apply Byte.byte_dec_bl in E3.
    replace (first + j + 1) with (first + (j + 1)) by lia.
    replace (s_first + j + 1) with (s_first + (j + 1)) by lia.
    apply IH; try lia.
    intros i Hi. destruct (Z.eq_dec i j) as [->|Hne]; [exact E3|].
    apply Hsame. lia.
  - eexists. split; [reflexivity|]. split; [lia|].
    intros Hall. specialize (Hall j ltac:(lia)).
    rewrite Hall in E3.
    pose proof (Byte.byte_dec_lb (eq_refl (mem (s_first + j)))) as T.
    congruence.
Qed.

Lemma search_spec (mem : memory) (last s_first s_last : Z) :
  0 < s_last - s_first ->
  forall (fuel : nat) (first : Z),
    first <= last ->
    last - first + (s_last - s_first) + 1 <= Z.of_nat fuel ->
    exists p,
      search fuel mem first last s_first s_last = Some p /\
      first <= p <= last /\
      (p < last -> fits mem last s_first (s_last - s_first) p) /\
      (forall q, first <= q < p ->
                 ~ fits mem last s_first (s_last - s_first) q) /\
      (p = last ->
       forall q, first <= q -> ~ fits mem last s_first (s_last - s_first) q).
Proof.
  intros Hn. induction fuel as [|fuel IH]; intros first Hfl Hfuel; [lia|].
  cbn [search].
  destruct (search_inner_spec mem first last s_first s_last (S fuel) 0)
    as [r [Hr Hspec]]; try lia.
  { intros i Hi. lia. }
  rewrite !Z.add_0_r in Hr. rewrite Hr.
  destruct r as [p|].
  - exists p. split; [reflexivity|].
    destruct Hspec as [[-> [Hroom Hsame]]|[-> Hroom]].
    + split; [lia|]. split; [intros _; split; assumption|].
      split; [intros q Hq; lia|].
      intros -> q Hq. lia.
    + split; [lia|]. split; [lia|].
      assert (No : forall q, first <= q ->
                ~ fits mem last s_first (s_last - s_first) q)
        by (intros q Hq [Hq' _]; lia).
      split; [intros q Hq; apply No; lia|].
      intros _. exact No.
  - destruct Hspec as [Hlt Hno].
    destruct (IH (first + 1)) as [p [Hp [Hrange [Hfound [Hleast Hnone]]]]];
      try lia.
    exists p. split; [exact Hp|]. split; [lia|]. split; [exact Hfound|].
    assert (Here : ~ fits mem last s_first (s_last - s_first) first)
      by (intros [_ H]; contradiction).
    split.
    + intros q Hq. destruct (Z.eq_dec q first) as [->|Hne]; [exact Here|].
      apply Hleast. lia.
    + intros Hpl q Hq. destruct (Z.eq_dec q first) as [->|Hne]; [exact Here|].
      apply Hnone; [exact Hpl|lia].
Qed.

Lemma fits_occurs_at (mem : memory) (v s : string_view) (r : Z) :
  fits mem (cend v) (cbegin s) (cend s - cbegin s) (cbegin v + r) <->
  occurs_at mem v s r.
Proof.
  unfold fits, occurs_at, same_bytes, cend, cbegin, size, at_.
  replace (_ptr s + _len s - _ptr s) with (_len s) by lia.
  split; intros [H1 H2]; (split; [lia|]); intros i Hi; specialize (H2 i Hi).
  - now rewrite Z.add_assoc.
  - now rewrite <- Z.add_assoc.
Qed.

(** ** [find] with an empty pattern *)

(** C4: with an empty needle, [find] returns [pos] when [pos <= size()] and
    [npos] when [pos > size()]. *)
Theorem find_empty_needle (fuel : nat) (mem : memory) (v s : string_view)
    (pos : Z) :
  empty s = true ->
  (pos <= size v -> find fuel mem v s pos = Some pos) /\
  (pos > size v -> find fuel mem v s pos = Some npos).
Proof.
  intros Hs. unfold find. rewrite Hs, Z.gtb_ltb.
  destruct (Z.ltb_spec (size v) pos); split; intros; try lia; reflexivity.
Qed.

(** ** [find] *)

(** C1: [v.find(s, pos)] returns the lowest offset [r >= pos] at which [s]
    occurs in [v] (the occurrence lies inside [v] and the characters agree),
    and [npos] when there is no such offset; it is [npos] in particular when
    [pos > v.size()].  Fuel of [v.size() + s.size() + 1] steps is enough for
    the loops to return. *)
Theorem find_spec (fuel : nat) (mem : memory) (v s : string_view) (pos : Z) :
  is_size (size v) -> is_size (size s) -> is_size pos ->
  size v + size s + 1 <= Z.of_nat fuel ->
  exists r,
    find fuel mem v s pos = Some r /\
    ((exists q, pos <= q /\ occurs_at mem v s q) ->
       pos <= r /\ occurs_at mem v s r /\
       forall q, pos <= q < r -> ~ occurs_at mem v s q) /\
    ((forall q, pos <= q -> ~ occurs_at mem v s q) -> r = npos) /\
    (pos > size v -> r = npos).
Proof.
  intros Hv Hs Hpos Hfuel. unfold is_size in *. unfold find.
  rewrite Z.gtb_ltb.
  destruct (Z.ltb_spec (size v) pos) as [Hout|Hin].
  { exists npos. split; [reflexivity|]. split; [|auto].
    intros [q [Hq [Hfit _]]]. lia. }
  unfold empty. fold (size s).
  destruct (Z.eqb_spec (size s) 0) as [He|Hne].
  { exists pos. split; [reflexivity|].
    assert (Here : occurs_at mem v s pos)
      by (split; [lia|intros i Hi; lia]).
    split; [|split].
    - intros _. split; [lia|]. split; [exact Here|]. intros q Hq. lia.
    - intros Hno. exfalso. apply (Hno pos); [lia|exact Here].
    - lia. }
  destruct (search_spec mem (cend v) (cbegin s) (cend s)
              ltac:(unfold cend, cbegin, size in *; lia)
              fuel (cbegin v + pos))
    as [p [Hp [Hrange [Hfound [Hleast Hnone]]]]].
  { unfold cend, cbegin, size in *. lia. }
  { unfold cend, cbegin, size in *. lia. }
  rewrite Hp.
  destruct (Z.eqb_spec p (cend v)) as [Hend|Hmid].
  - exists npos. split; [reflexivity|].
    assert (No : forall q, pos <= q -> ~ occurs_at mem v s q).
    { intros q Hq Hocc. apply fits_occurs_at in Hocc.
      apply (Hnone Hend (cbegin v + q)); [lia|exact Hocc]. }
    split; [|auto].
    intros [q [Hq Hocc]]. exfalso. exact (No q Hq Hocc).
  - assert (Hoff : 0 <= p - cbegin v < modulus)
      by (unfold cend, cbegin, size in *; lia).
    rewrite (to_size_small _ Hoff).
    exists (p - cbegin v). split; [reflexivity|].
    assert (Hocc : occurs_at mem v s (p - cbegin v)).
    { apply fits_occurs_at.
      replace (cbegin v + (p - cbegin v)) with p by lia.
      apply Hfound. lia. }
    assert (Hlow : forall q, pos <= q < p - cbegin v -> ~ occurs_at mem v s q).
    { intros q Hq Hq'. apply fits_occurs_at in Hq'.
      apply (Hleast (cbegin v + q)); [lia|exact Hq']. }
    split; [|split].
    + intros _. split; [lia|]. split; [exact Hocc|exact Hlow].
    + intros Hno. exfalso. apply (Hno (p - cbegin v)); [lia|exact Hocc].
    + lia.
Qed.

(** ** The characters of a view, as a list *)

Lemma read_range_length (mem : memory) (n : nat) :
  forall p, List.length (read_range mem p n) = n.
Proof. induction n as [|n IH]; intros p; simpl; [|rewrite IH]; reflexivity. Qed.

Lemma read_range_nth (mem : memory) (d : value_type) (n : nat) :
  forall p i, (i < n)%nat ->
    nth i (read_range mem p n) d = mem (p + Z.of_nat i).
Proof.
  induction n as [|n IH]; intros p i Hi; [lia|].
  destruct i as [|i]; simpl read_range; cbn [nth].
  - f_equal. simpl. lia.
  - rewrite IH by lia. f_equal. lia.
Qed.

Lemma read_range_app (mem : memory) (n m : nat) :
  forall p,
    read_range mem p (n + m) =
    read_range mem p n ++ read_range mem (p + Z.of_nat n) m.
Proof.
  induction n as [|n IH]; intros p.
  - simpl. now rewrite Z.add_0_r.
  - cbn [read_range Nat.add app]. rewrite IH. do 3 f_equal. lia.
Qed.

Lemma read_range_same (mem : memory) (n : nat) :
  forall p q,
    read_range mem p n = read_range mem q n <->
    same_bytes mem p q (Z.of_nat n).
Proof.
  induction n as [|n IH]; intros p q.
  - split; [intros _ i Hi; lia|reflexivity].
  - cbn [read_range]. split.
    + intros E. injection E as E0 E1. apply IH in E1.
      intros i Hi. destruct (Z.eq_dec i 0) as [->|Hne].
      * now rewrite !Z.add_0_r.
      * specialize (E1 (i - 1) ltac:(lia)).
        replace (p + 1 + (i - 1)) with (p + i) in E1 by lia.
        replace (q + 1 + (i - 1)) with (q + i) in E1 by lia.
        exact E1.
    + intros H. f_equal.
      * specialize (H 0 ltac:(lia)). now rewrite !Z.add_0_r in H.
      * apply IH. intros i Hi. specialize (H (1 + i) ltac:(lia)).
        now rewrite !Z.add_assoc in H.
Qed.

Lemma app_same_length (A : Type) (a c b d : list A) :
  List.length a = List.length c -> a ++ b = c ++ d -> a = c /\ b = d.
Proof.
  revert c. induction a as [|h a IH]; intros [|h' c] L E;
    try discriminate; simpl in *.
  - now split.
  - injection E as -> E. injection L as L.
    destruct (IH c L E) as [-> ->]. now split.
Qed.

Lemma to_string_read (mem : memory) (v : string_view) :
  to_string mem v = read_range mem (_ptr v) (Z.to_nat (size v)).
Proof.
  unfold to_string, string_of_range, cbegin, cend, size.
  do 2 f_equal. lia.
Qed.

(** X1: The owning string made from a view has [size()] characters, and its
    character number [i] is the one [operator[]] gives at [i]. *)
Theorem to_string_index (mem : memory) (v : string_view) :
  0 <= size v ->
  Z.of_nat (List.length (to_string mem v)) = size v /\
  forall i, 0 <= i < size v ->
    nth (Z.to_nat i) (to_string mem v) x00 = at_ mem v i.
Proof.
  intros Hv. rewrite to_string_read, read_range_length. split; [lia|].
  intros i Hi. rewrite read_range_nth by lia. unfold at_. f_equal. lia.
Qed.

(** X2: [x == y] holds exactly when the two views give the same owning string. *)
Theorem op_eq_to_string (mem : memory) (x y : string_view) :
  0 <= size x -> 0 <= size y ->
  (op_eq mem x y = true <-> to_string mem x = to_string mem y).
Proof.
  intros Hx Hy. rewrite op_eq_true, !to_string_read. unfold data. split.
  - intros [E H]. rewrite <- E. apply read_range_same.
    now rewrite Z2Nat.id by lia.
  - intros E.
    assert (L : size x = size y).
    { apply (f_equal (@List.length _)) in E.
      rewrite !read_range_length in E. lia. }
    split; [exact L|]. rewrite <- L in E. apply read_range_same in E.
    now rewrite Z2Nat.id in E by lia.
Qed.

(** X3: [==] is transitive. *)
Theorem op_eq_trans (mem : memory) (x y z : string_view) :
  op_eq mem x y = true -> op_eq mem y z = true -> op_eq mem x z = true.
Proof.
  rewrite !op_eq_true. intros [E1 H1] [E2 H2]. split; [congruence|].
  intros i Hi. rewrite H1 by exact Hi. apply H2. lia.
Qed.

(** X4: The owning string of a view after [remove_prefix(n)] is the owning string
    of the view before, without its first [n] characters. *)
Theorem to_string_remove_prefix (mem : memory) (v : string_view) (n : Z) :
  is_size (size v) -> 0 <= n ->
  to_string mem (remove_prefix v n) = skipn (Z.to_nat n) (to_string mem v).
Proof.
  unfold is_size, size. intros Hv Hn.
  rewrite !to_string_read. unfold remove_prefix, size. cbn [_ptr _len].
  rewrite Z.gtb_ltb.
  destruct (Z.ltb_spec (_len v) n) as [H|H].
  - rewrite Z.sub_diag, (to_size_small 0) by (unfold is_size; lia).
    rewrite skipn_all2 by (rewrite read_range_length; lia). reflexivity.
  - rewrite (to_size_small (_len v - n)) by (unfold is_size; lia).
    replace (Z.to_nat (_len v)) with (Z.to_nat n + Z.to_nat (_len v - n))%nat
      by lia.
    rewrite read_range_app, skipn_app, read_range_length, Nat.sub_diag.
    rewrite skipn_all2 by (rewrite read_range_length; lia).
    rewrite Z2Nat.id by lia. reflexivity.
Qed.

(** X5: The owning string of a view after [remove_suffix(n)] is the owning string
    of the view before, without its last [n] characters. *)
Theorem to_string_remove_suffix (mem : memory) (v : string_view) (n : Z) :
  is_size (size v) -> 0 <= n ->
  to_string mem (remove_suffix v n) =
    firstn (Z.to_nat (size v - n)) (to_string mem v).
Proof.
  unfold is_size, size. intros Hv Hn.
  rewrite !to_string_read. unfold remove_suffix, size. cbn [_ptr _len].
  rewrite Z.gtb_ltb.
  destruct (Z.ltb_spec (_len v) n) as [H|H].
  - rewrite Z.sub_diag, (to_size_small 0) by (unfold is_size; lia).
    replace (Z.to_nat (_len v - n)) with 0%nat by lia. reflexivity.
  - rewrite (to_size_small (_len v - n)) by (unfold is_size; lia).
    replace (Z.to_nat (_len v)) with (Z.to_nat (_len v - n) + Z.to_nat n)%nat
      by lia.
    rewrite read_range_app, firstn_app, read_range_length, Nat.sub_diag.
    rewrite firstn_all2 by (rewrite read_range_length; lia).
    cbn [firstn]. now rewrite app_nil_r.
Qed.

(** X6: Where [pos + n] does not overflow, the owning string of
    [v.substr(pos, n)] is made of the [n] characters that follow the first
    [pos] characters of the owning string of [v], or of all those that follow
    them when there are fewer than [n]. *)
Theorem to_string_substr (mem : memory) (v : string_view) (pos n : Z) :
  is_size (size v) -> 0 <= pos <= size v -> is_size n ->
  pos + n < modulus ->
  exists e,
    substr v pos n = inr e /\
    to_string mem e =
      firstn (Z.to_nat n) (skipn (Z.to_nat pos) (to_string mem v)).
Proof.
  intros Hv Hp Hn Hw. eexists. split; [now apply substr_clamped|].
  unfold is_size, size in *.
  rewrite !to_string_read. unfold size. cbn [_ptr _len].
  replace (Z.to_nat (_len v)) with (Z.to_nat pos + Z.to_nat (_len v - pos))%nat
    by lia.
  rewrite read_range_app, skipn_app, read_range_length, Nat.sub_diag.
  rewrite skipn_all2 by (rewrite read_range_length; lia).
  rewrite Z2Nat.id by lia. cbn [skipn app].
  destruct (Z.le_gt_cases n (_len v - pos)) as [H|H].
  - rewrite Z.min_l by lia.
    replace (Z.to_nat (_len v - pos))
      with (Z.to_nat n + Z.to_nat (_len v - pos - n))%nat by lia.
    rewrite read_range_app, firstn_app, read_range_length, Nat.sub_diag.
    rewrite firstn_all2 by (rewrite read_range_length; lia).
    cbn [firstn]. now rewrite app_nil_r.
  - rewrite Z.min_r by lia.
    rewrite firstn_all2 by (rewrite read_range_length; lia). reflexivity.
Qed.

(** ** Prefixes and suffixes *)

Lemma starts_with_true (mem : memory) (v x : string_view) :
  starts_with mem v x = true <->
  size x <= size v /\ same_bytes mem (_ptr v) (_ptr x) (size x).
Proof.
  unfold starts_with, size.
  rewrite andb_true_iff, compare_eqb, Z.geb_le. tauto.
Qed.

Lemma ends_with_true (mem : memory) (v x : string_view) :
  ends_with mem v x = true <->
  size x <= size v /\
  same_bytes mem (_ptr v + size v - size x) (_ptr x) (size x).
Proof.
  unfold ends_with, size.
  rewrite andb_true_iff, compare_eqb, Z.geb_le. tauto.
Qed.

(** X7: [v.ends_with(x)] holds exactly when [v] is at least as long as [x] and the
    last [x.size()] characters of [v] are those of [x]. *)
Theorem ends_with_spec (mem : memory) (v x : string_view) :
  ends_with mem v x = true <->
  size v >= size x /\
  forall i, 0 <= i < size x ->
    at_ mem v (size v - size x + i) = at_ mem x i.
Proof.
  rewrite ends_with_true. unfold same_bytes, at_.
  split; intros [H1 H2]; (split; [lia|]); intros i Hi; specialize (H2 i Hi).
  - rewrite <- H2. f_equal. lia.
  - rewrite <- H2. f_equal. lia.
Qed.

(** X8: [starts_with(char c)] gives what [starts_with(string_view)] gives on a
    view of the one character [c]. *)
Theorem starts_with_char_as_view (mem : memory) (v : string_view)
    (c : value_type) (c_addr : const_pointer) :
  is_size (size v) -> mem c_addr = c ->
  starts_with_char mem v c = starts_with mem v (string_view_of_range c_addr 1).
Proof.
  unfold is_size. intros Hv Hc. apply eq_true_iff_eq.
  rewrite starts_with_true.
  unfold starts_with_char, empty, front, size, string_view_of_range in *.
  cbn [_ptr _len].
  rewrite andb_true_iff, negb_true_iff, Z.eqb_neq. split.
  - intros [Hne E]. apply Byte.byte_dec_bl in E. split; [lia|].
    intros i Hi. replace i with 0 by lia.
    rewrite !Z.add_0_r in *. congruence.
  - intros [Hle H]. split; [lia|].
    apply Byte.byte_dec_lb. specialize (H 0 ltac:(lia)).
    rewrite !Z.add_0_r in *. congruence.
Qed.

(** X9: [ends_with(char c)] gives what [ends_with(string_view)] gives on a view of
    the one character [c]. *)
Theorem ends_with_char_as_view (mem : memory) (v : string_view)
    (c : value_type) (c_addr : const_pointer) :
  is_size (size v) -> mem c_addr = c ->
  ends_with_char mem v c = ends_with mem v (string_view_of_range c_addr 1).
Proof.
  unfold is_size. intros Hv Hc. apply eq_true_iff_eq.
  rewrite ends_with_true.
  unfold ends_with_char, empty, back, size, string_view_of_range in *.
  cbn [_ptr _len].
  rewrite andb_true_iff, negb_true_iff, Z.eqb_neq. split.
  - intros [Hne E]. apply Byte.byte_dec_bl in E. split; [lia|].
    rewrite to_size_small in E by (unfold is_size; lia).
    intros i Hi. replace i with 0 by lia.
    rewrite !Z.add_0_r. rewrite <- Z.add_sub_assoc. congruence.
  - intros [Hle H]. split; [lia|].
    apply Byte.byte_dec_lb. specialize (H 0 ltac:(lia)).
    rewrite to_size_small by (unfold is_size; lia).
    rewrite !Z.add_0_r, <- Z.add_sub_assoc in H. congruence.
Qed.

(** X10: [starts_with] orders the views: every view starts with itself, a prefix
    of a prefix is a prefix, and two views that start with each other are
    equal under [==]. *)
Theorem starts_with_order (mem : memory) (v x y : string_view) :
  starts_with mem v v = true /\
  (starts_with mem v x = true -> starts_with mem x y = true ->
   starts_with mem v y = true) /\
  (starts_with mem v x = true -> starts_with mem x v = true ->
   op_eq mem v x = true).
Proof.
  rewrite op_eq_true, !starts_with_true. unfold data.
  split; [|split].
  - split; [lia|apply same_bytes_refl].
  - intros [H1 H2] [H3 H4]. split; [lia|].
    intros i Hi. rewrite H2 by lia. now apply H4.
  - intros [H1 H2] [H3 H4]. split; [lia|].
    intros i Hi. apply H2. lia.
Qed.

(** X11: [v.starts_with(x)] holds exactly when the owning string of [v] is the
    owning string of [x] followed by some characters. *)
Theorem starts_with_prefix (mem : memory) (v x : string_view) :
  0 <= size v -> 0 <= size x ->
  (starts_with mem v x = true <->
   exists rest, to_string mem v = to_string mem x ++ rest).
Proof.
  intros Hv Hx. rewrite starts_with_true, !to_string_read. split.
  - intros [Hle H].
    exists (read_range mem (_ptr v + size x) (Z.to_nat (size v - size x))).
    replace (Z.to_nat (size v))
      with (Z.to_nat (size x) + Z.to_nat (size v - size x))%nat by lia.
    rewrite read_range_app, Z2Nat.id by lia. f_equal.
    apply read_range_same. now rewrite Z2Nat.id by lia.
  - intros [rest E].
    assert (L : size x <= size v).
    { apply (f_equal (@List.length _)) in E.
      rewrite length_app, !read_range_length in E. lia. }
    split; [exact L|].
    replace (Z.to_nat (size v))
      with (Z.to_nat (size x) + Z.to_nat (size v - size x))%nat in E by lia.
    rewrite read_range_app in E.
    apply app_same_length in E; [|now rewrite !read_range_length].
    destruct E as [E _]. apply read_range_same in E.
    now rewrite Z2Nat.id in E by lia.
Qed.

(** X12: [v.ends_with(x)] holds exactly when the owning string of [v] is some
    characters followed by the owning string of [x]. *)
Theorem ends_with_suffix (mem : memory) (v x : string_view) :
  0 <= size v -> 0 <= size x ->
  (ends_with mem v x = true <->
   exists front, to_string mem v = front ++ to_string mem x).
Proof.
  intros Hv Hx. rewrite ends_with_true, !to_string_read. split.
  - intros [Hle H].
    exists (read_range mem (_ptr v) (Z.to_nat (size v - size x))).
    replace (Z.to_nat (size v))
      with (Z.to_nat (size v - size x) + Z.to_nat (size x))%nat at 1 by lia.
    rewrite read_range_app, Z2Nat.id by lia. f_equal.
    apply read_range_same. rewrite Z2Nat.id by lia.
    replace (_ptr v + (size v - size x)) with (_ptr v + size v - size x) by lia.
    exact H.
  - intros [front0 E].
    assert (L : size x <= size v).
    { apply (f_equal (@List.length _)) in E.
      rewrite length_app, !read_range_length in E. lia. }
    split; [exact L|].
    replace (Z.to_nat (size v))
      with (Z.to_nat (size v - size x) + Z.to_nat (size x))%nat in E by lia.
    rewrite read_range_app in E.
    assert (Lf : List.length
                   (read_range mem (_ptr v) (Z.to_nat (size v - size x))) =
                 List.length front0).
    { apply (f_equal (@List.length _)) in E.
      rewrite !length_app, !read_range_length in E.
      rewrite read_range_length. lia. }
    apply (app_same_length _ _ _ _ _ Lf) in E.
    destruct E as [_ E]. apply read_range_same in E.
    rewrite !Z2Nat.id in E by lia.
    replace (_ptr v + size v - size x) with (_ptr v + (size v - size x))
      by lia.
    exact E.
Qed.

(** ** Trimming a view *)

Lemma remove_prefix_small (v : string_view) (n : Z) :
  is_size (size v) -> 0 <= n <= size v ->
  remove_prefix v n = mk_string_view (_ptr v + n) (size v - n).
Proof.
  unfold is_size, size, remove_prefix. intros Hv Hn. rewrite Z.gtb_ltb.
  destruct (Z.ltb_spec (_len v) n); [lia|].
  now rewrite to_size_small by (unfold is_size; lia).
Qed.

Lemma remove_prefix_large (v : string_view) (n : Z) :
  is_size (size v) -> size v <= n ->
  remove_prefix v n = mk_string_view (_ptr v + size v) 0.
Proof.
  unfold is_size, size, remove_prefix. intros Hv Hn. rewrite Z.gtb_ltb.
  destruct (Z.ltb_spec (_len v) n).
  - now rewrite Z.sub_diag, to_size_small by (unfold is_size; lia).
  - replace n with (_len v) by lia.
    now rewrite Z.sub_diag, to_size_small by (unfold is_size; lia).
Qed.

Lemma remove_suffix_small (v : string_view) (n : Z) :
  is_size (size v) -> 0 <= n <= size v ->
  remove_suffix v n = mk_string_view (_ptr v) (size v - n).
Proof.
  unfold is_size, size, remove_suffix. intros Hv Hn. rewrite Z.gtb_ltb.
  destruct (Z.ltb_spec (_len v) n); [lia|].
  now rewrite to_size_small by (unfold is_size; lia).
Qed.

Lemma remove_suffix_large (v : string_view) (n : Z) :
  is_size (size v) -> size v <= n ->
  remove_suffix v n = mk_string_view (_ptr v) 0.
Proof.
  unfold is_size, size, remove_suffix. intros Hv Hn. rewrite Z.gtb_ltb.
  destruct (Z.ltb_spec (_len v) n).
  - now rewrite Z.sub_diag, to_size_small by (unfold is_size; lia).
  - replace n with (_len v) by lia.
    now rewrite Z.sub_diag, to_size_small by (unfold is_size; lia).
Qed.

(** X13: When [n + m] does not overflow [size_type], [remove_suffix(n)] followed
    by [remove_suffix(m)] leaves the same view as one [remove_suffix(n + m)]. *)
Theorem remove_suffix_twice (v : string_view) (n m : Z) :
  is_size (size v) -> is_size n -> is_size m -> n + m < modulus ->
  remove_suffix (remove_suffix v n) m = remove_suffix v (to_size (n + m)).
Proof.
  unfold is_size. intros Hv Hn Hm Hnm.
  rewrite (to_size_small (n + m)) by (unfold is_size; lia).
  destruct (Z.le_gt_cases n (size v)) as [H1|H1].
  - rewrite (remove_suffix_small v n) by (unfold is_size; lia).
    destruct (Z.le_gt_cases (n + m) (size v)) as [H2|H2].
    + rewrite !remove_suffix_small by (unfold is_size, size in *; simpl; lia).
      unfold size. simpl. f_equal. lia.
    + rewrite !remove_suffix_large by (unfold is_size, size in *; simpl; lia).
      reflexivity.
  - rewrite (remove_suffix_large v n) by (unfold is_size; lia).
    rewrite (remove_suffix_large v (n + m)) by (unfold is_size; lia).
    rewrite remove_suffix_large by (unfold is_size, size; simpl; lia).
    reflexivity.
Qed.

(** X14: After [remove_prefix(n)] or [remove_suffix(n)], for any [n], the view
    lies inside the view it was, its size is a [size_type] and is the old
    size less [min(n, size())]. *)
Theorem trimmed_view_inside (v : string_view) (n : Z) :
  is_size (size v) -> is_size n ->
  (cbegin v <= cbegin (remove_prefix v n) /\
   cend (remove_prefix v n) = cend v /\
   size (remove_prefix v n) = size v - Z.min n (size v)) /\
  (cbegin (remove_suffix v n) = cbegin v /\
   cend (remove_suffix v n) <= cend v /\
   size (remove_suffix v n) = size v - Z.min n (size v)).
Proof.
  unfold is_size. intros Hv Hn.
  destruct (Z.le_gt_cases n (size v)) as [H|H].
  - rewrite remove_prefix_small, remove_suffix_small
      by (unfold is_size; lia).
    unfold cbegin, cend, size in *. simpl. lia.
  - rewrite remove_prefix_large, remove_suffix_large
      by (unfold is_size; lia).
    unfold cbegin, cend, size in *. simpl. lia.
Qed.

(** X15: For [n <= size()], [remove_prefix(n)] leaves the view that
    [substr(n)] returns, and [remove_suffix(n)] leaves the view that
    [substr(0, size() - n)] returns. *)
Theorem trimming_as_substr (v : string_view) (n : Z) :
  is_size (size v) -> 0 <= n <= size v ->
  substr v n npos = inr (remove_prefix v n) /\
  substr v 0 (size v - n) = inr (remove_suffix v n).
Proof.
  intros Hv Hn. split.
  - rewrite substr_to_end, remove_prefix_small by assumption. reflexivity.
  - unfold is_size in Hv.
    rewrite substr_clamped, remove_suffix_small
      by (unfold is_size; try assumption; lia).
    rewrite Z.add_0_r, Z.sub_0_r, Z.min_l by lia. reflexivity.
Qed.

(** X16: When [n + m <= size()], [remove_prefix(n)] and [remove_suffix(m)] can be
    applied in either order, and leave the [size() - n - m] characters from
    offset [n] on. *)
Theorem remove_prefix_suffix_commute (v : string_view) (n m : Z) :
  is_size (size v) -> 0 <= n -> 0 <= m -> n + m <= size v ->
  remove_suffix (remove_prefix v n) m = remove_prefix (remove_suffix v m) n /\
  remove_suffix (remove_prefix v n) m =
    mk_string_view (_ptr v + n) (size v - n - m).
Proof.
  unfold is_size. intros Hv Hn Hm Hnm.
  rewrite (remove_prefix_small v n), (remove_suffix_small v m)
    by (unfold is_size; lia).
  rewrite remove_suffix_small, remove_prefix_small
    by (unfold is_size, size in *; simpl; lia).
  unfold size. simpl. split; f_equal; lia.
Qed.

(** ** More on [substr] *)

(** X17: [substr(pos, n)] throws [std::out_of_range] exactly when
    [pos > size()], whatever [n] is; otherwise the view it returns starts at
    offset [pos]. *)
Theorem substr_throws_exactly (v : string_view) (pos n : Z) :
  (pos > size v <->
   substr v pos n = inl (out_of_range "mserialize::string_view::substr")) /\
  (pos <= size v <->
   exists e, substr v pos n = inr e /\ data e = data v + pos).
Proof.
  unfold substr. rewrite Z.gtb_ltb.
  destruct (Z.ltb_spec (size v) pos) as [H|H]; split; split;
    try lia; try discriminate; try reflexivity.
  - intros [e [E _]]. discriminate.
  - intros _. eexists. split; reflexivity.
Qed.

(** X18: Where [pos + n] does not overflow [size_type], [substr(pos, n)] returns
    the view of [min(n, size() - pos)] characters at offset [pos]; it lies
    inside [v]. *)
Theorem substr_without_overflow (v : string_view) (pos n : Z) :
  is_size (size v) -> 0 <= pos <= size v -> is_size n ->
  pos + n < modulus ->
  exists e,
    substr v pos n = inr e /\
    data e = data v + pos /\
    size e = Z.min n (size v - pos) /\
    cbegin v <= cbegin e /\ cend e <= cend v.
Proof.
  intros Hv Hp Hn Hw. eexists. split; [now apply substr_clamped|].
  unfold is_size, data, size, cbegin, cend in *. simpl. lia.
Qed.

(** X19: Where no sum overflows, a [substr] of a [substr] is one [substr] of the
    first view: the offsets add up and the counts are clamped in turn. *)
Theorem substr_of_substr (v : string_view) (p1 n1 p2 n2 : Z) :
  is_size (size v) -> 0 <= p1 <= size v -> is_size n1 ->
  p1 + n1 < modulus ->
  0 <= p2 <= Z.min n1 (size v - p1) -> is_size n2 ->
  p2 + n2 < modulus ->
  exists e,
    substr v p1 n1 = inr e /\
    substr e p2 n2 = substr v (p1 + p2) (Z.min n2 (n1 - p2)).
Proof.
  unfold is_size. intros Hv Hp1 Hn1 Hw1 Hp2 Hn2 Hw2.
  eexists. split; [apply substr_clamped; unfold is_size; lia|].
  rewrite !substr_clamped
    by (unfold is_size, size in *; simpl; lia).
  unfold size. simpl. f_equal. f_equal; lia.
Qed.

(** ** More on [find] *)

Lemma find_result (fuel : nat) (mem : memory) (v s : string_view) (pos : Z) :
  is_size (size v) -> is_size (size s) -> is_size pos ->
  size v + size s + 1 <= Z.of_nat fuel ->
  exists r,
    find fuel mem v s pos = Some r /\
    ((r = npos /\ forall q, pos <= q -> ~ occurs_at mem v s q) \/
     (pos <= r /\ occurs_at mem v s r /\
      forall q, pos <= q < r -> ~ occurs_at mem v s q)).
Proof.
  intros Hv Hs Hpos Hfuel. unfold is_size in *. unfold find.
  rewrite Z.gtb_ltb.
  destruct (Z.ltb_spec (size v) pos) as [Hout|Hin].
  { exists npos. split; [reflexivity|]. left. split; [reflexivity|].
    intros q Hq [Hfit _]. lia. }
  unfold empty. fold (size s).
  destruct (Z.eqb_spec (size s) 0) as [He|Hne].
  { exists pos. split; [reflexivity|]. right.
    split; [lia|]. split; [|intros q Hq; lia].
    split; [lia|intros i Hi; lia]. }
  destruct (search_spec mem (cend v) (cbegin s) (cend s)
              ltac:(unfold cend, cbegin, size in *; lia)
              fuel (cbegin v + pos))
    as [p [Hp [Hrange [Hfound [Hleast Hnone]]]]].
  { unfold cend, cbegin, size in *. lia. }
  { unfold cend, cbegin, size in *. lia. }
  rewrite Hp.
  destruct (Z.eqb_spec p (cend v)) as [Hend|Hmid].
  - exists npos. split; [reflexivity|]. left. split; [reflexivity|].
    intros q Hq Hocc. apply fits_occurs_at in Hocc.
    apply (Hnone Hend (cbegin v + q)); [lia|exact Hocc].
  - assert (Hoff : 0 <= p - cbegin v < modulus)
      by (unfold cend, cbegin, size in *; lia).
    rewrite (to_size_small _ Hoff).
    exists (p - cbegin v). split; [reflexivity|]. right.
    split; [lia|]. split.
    + apply fits_occurs_at.
      replace (cbegin v + (p - cbegin v)) with p by lia.
      apply Hfound. lia.
    + intros q Hq Hq'. apply fits_occurs_at in Hq'.
      apply (Hleast (cbegin v + q)); [lia|exact Hq'].
Qed.

Lemma occurs_at_char (mem : memory) (v : string_view) (c_addr q : Z) :
  occurs_at mem v (string_view_of_range c_addr 1) q <->
  q + 1 <= size v /\ at_ mem v q = mem c_addr.
Proof.
  unfold occurs_at, at_, size, string_view_of_range. cbn [_ptr _len]. split.
  - intros [H1 H2]. split; [exact H1|].
    specialize (H2 0 ltac:(lia)). now rewrite !Z.add_0_r in H2.
  - intros [H1 H2]. split; [exact H1|].
    intros i Hi. replace i with 0 by lia. now rewrite !Z.add_0_r.
Qed.

(** X20: [find(char c, pos)] returns the lowest index [r >= pos] with
    [v[r] == c], and [npos] when no character of [v] from [pos] on is [c]. *)
Theorem find_char_spec (fuel : nat) (mem : memory) (v : string_view)
    (c : value_type) (c_addr : const_pointer) (pos : Z) :
  mem c_addr = c ->
  is_size (size v) -> is_size pos ->
  size v + 2 <= Z.of_nat fuel ->
  exists r,
    find_char fuel mem v c_addr pos = Some r /\
    ((r = npos /\ forall i, pos <= i < size v -> at_ mem v i <> c) \/
     (pos <= r < size v /\ at_ mem v r = c /\
      forall i, pos <= i < r -> at_ mem v i <> c)).
Proof.
  intros Hc Hv Hpos Hfuel. unfold find_char.
  destruct (find_result fuel mem v (string_view_of_range c_addr 1) pos)
    as [r [Hr Hcase]]; try assumption.
  { pose proof modulus_gt_1. unfold is_size, size. simpl. lia. }
  { unfold size at 2. simpl. lia. }
  exists r. split; [exact Hr|].
  destruct Hcase as [[-> Hno]|[Hle [Hocc Hleast]]].
  - left. split; [reflexivity|]. intros i Hi E.
    apply (Hno i); [lia|]. apply occurs_at_char. split; [lia|congruence].
  - right. apply occurs_at_char in Hocc. destruct Hocc as [Hin Hat].
    split; [lia|]. split; [congruence|].
    intros i Hi E. apply (Hleast i Hi).
    apply occurs_at_char. split; [lia|congruence].
Qed.

Lemma occurs_at_start (mem : memory) (v s : string_view) :
  occurs_at mem v s 0 <-> starts_with mem v s = true.
Proof.
  rewrite starts_with_true. unfold occurs_at, same_bytes, at_.
  split; intros [H1 H2]; (split; [lia|]); intros i Hi; specialize (H2 i Hi).
  - now rewrite Z.add_0_l in H2.
  - now rewrite Z.add_0_l.
Qed.

(** X21: [v.find(s)] is [0] exactly when [v.starts_with(s)]. *)
Theorem find_zero_starts_with (fuel : nat) (mem : memory) (v s : string_view) :
  is_size (size v) -> is_size (size s) ->
  size v + size s + 1 <= Z.of_nat fuel ->
  (find fuel mem v s 0 = Some 0 <-> starts_with mem v s = true).
Proof.
  intros Hv Hs Hfuel. pose proof modulus_gt_1 as Hm. pose proof npos_eq as Hn.
  destruct (find_result fuel mem v s 0) as [r [Hr Hcase]]; try assumption.
  { unfold is_size. lia. }
  rewrite Hr, <- occurs_at_start. split.
  - intros E. injection E as ->.
    destruct Hcase as [[E _]|[_ [Hocc _]]]; [lia|exact Hocc].
  - intros Hocc. f_equal.
    destruct Hcase as [[_ Hno]|[Hle [_ Hleast]]].
    + exfalso. apply (Hno 0); [lia|exact Hocc].
    + destruct (Z.eq_dec r 0) as [E|E]; [exact E|].
      exfalso. apply (Hleast 0); [lia|exact Hocc].
Qed.

(** X22: Searching from [k] is searching from the start in the view with its first
    [k] characters removed: [v.find(s, k)] is [npos] when the search in the
    trimmed view gives [npos], and [k] more than its result otherwise. *)
Theorem find_after_remove_prefix (fuel : nat) (mem : memory)
    (v s : string_view) (k : Z) :
  is_size (size v) -> is_size (size s) -> 0 <= k <= size v ->
  size v + size s + 1 <= Z.of_nat fuel ->
  exists r,
    find fuel mem (remove_prefix v k) s 0 = Some r /\
    find fuel mem v s k = Some (if r =? npos then npos else k + r).
Proof.
  intros Hv Hs Hk Hfuel. pose proof modulus_gt_1 as Hm.
  pose proof npos_eq as Hn.
  rewrite remove_prefix_small by assumption.
  unfold is_size in *. unfold find.
  unfold size at 1. cbn [_len]. rewrite !Z.gtb_ltb.
  destruct (Z.ltb_spec (size v - k) 0) as [H|_]; [lia|].
  destruct (Z.ltb_spec (size v) k) as [H|_]; [lia|].
  unfold empty. fold (size s).
  destruct (Z.eqb_spec (size s) 0) as [He|Hne].
  { exists 0. split; [reflexivity|].
    destruct (Z.eqb_spec 0 npos) as [E|_]; [lia|].
    now rewrite Z.add_0_r. }
  unfold cbegin, cend. cbn [_ptr _len].
  replace (_ptr v + k + 0) with (_ptr v + k) by lia.
  replace (_ptr v + k + (size v - k)) with (_ptr v + _len v)
    by (unfold size; lia).
  destruct (search_spec mem (_ptr v + _len v) (_ptr s) (_ptr s + _len s)
              ltac:(unfold size in *; lia) fuel (_ptr v + k))
    as [p [Hp [Hrange _]]].
  { unfold size in *. lia. }
  { unfold size in *. lia. }
  rewrite Hp.
  destruct (Z.eqb_spec p (_ptr v + _len v)) as [Hend|Hmid].
  - exists npos. split; [reflexivity|]. now rewrite Z.eqb_refl.
  - unfold size in *.
    rewrite (to_size_small (p - (_ptr v + k))) by (unfold is_size; lia).
    rewrite (to_size_small (p - _ptr v)) by (unfold is_size; lia).
    eexists. split; [reflexivity|].
    destruct (Z.eqb_spec (p - (_ptr v + k)) npos) as [E|_]; [lia|].
    f_equal. lia.
Qed.

(** ** Construction from a C string *)

Lemma strlen_loop_spec (mem : memory) (str : const_pointer) (len : Z) :
  forall (fuel : nat) (n : Z),
    0 <= n <= len ->
    mem (str + len) = x00 ->
    (forall i, n <= i < len -> mem (str + i) <> x00) ->
    len - n < Z.of_nat fuel ->
    strlen_loop fuel mem (str + n) n = Some len.
Proof.
  induction fuel as [|fuel IH]; intros n Hn Hz Hnz Hfuel; [lia|].
  cbn [strlen_loop].
  destruct (Byte.eqb (mem (str + n)) x00) eqn:E.
  - apply Byte.byte_dec_bl in E.
    destruct (Z.eq_dec n len) as [->|Hne]; [reflexivity|].
    exfalso. apply (Hnz n); [lia|exact E].
  - assert (n <> len).
    { intros ->. rewrite Hz in E. discriminate. }
    replace (str + n + 1) with (str + (n + 1)) by lia.
    apply IH; try lia; try assumption.
    intros i Hi. apply Hnz. lia.
Qed.

(** X23: [string_view(const char* str)] on a string whose first zero character is
    at offset [len]: the view starts at [str], has [len] characters, and none
    of them is the zero character. *)
Theorem string_view_of_cstr_spec (fuel : nat) (mem : memory)
    (str : const_pointer) (len : Z) :
  is_size len ->
  mem (str + len) = x00 ->
  (forall i, 0 <= i < len -> mem (str + i) <> x00) ->
  len < Z.of_nat fuel ->
  exists v,
    string_view_of_cstr fuel mem str = Some v /\
    data v = str /\ size v = len /\
    forall i, 0 <= i < size v -> at_ mem v i <> x00.
Proof.
  intros Hlen Hz Hnz Hfuel.
  unfold string_view_of_cstr, strlen.
  pose proof (strlen_loop_spec mem str len fuel 0) as H.
  rewrite Z.add_0_r in H. rewrite H; try assumption; try lia.
  - cbn [option_map]. rewrite (to_size_small _ Hlen).
    eexists. split; [reflexivity|]. repeat split. exact Hnz.
  - unfold is_size in Hlen. lia.
Qed.

(** ** Output *)


(** ** How the operations fit together *)

(** X25: At an offset that [find] returns, other than [npos], [substr] with the
    size of the needle returns a view equal to the needle under [==]. *)
Theorem find_gives_equal_substr (fuel : nat) (mem : memory)
    (v s : string_view) (pos r : Z) :
  is_size (size v) -> is_size (size s) -> is_size pos ->
  size v + size s + 1 <= Z.of_nat fuel ->
  find fuel mem v s pos = Some r -> r <> npos ->
  pos <= r /\ r + size s <= size v /\
  exists e, substr v r (size s) = inr e /\ op_eq mem e s = true.
Proof.
  intros Hv Hs Hpos Hfuel Hfind Hr.
  destruct (find_result fuel mem v s pos Hv Hs Hpos Hfuel)
    as [r' [Hr' Hcase]].
  rewrite Hfind in Hr'. injection Hr' as <-.
  destruct Hcase as [[E _]|[Hle [[Hfit Hsame] _]]]; [contradiction|].
  unfold is_size in *.
  split; [exact Hle|]. split; [exact Hfit|].
  eexists. split; [apply substr_clamped; unfold is_size; lia|].
  apply op_eq_true. unfold size, data in *. cbn [_ptr _len].
  split; [lia|]. rewrite Z.min_l by lia.
  intros i Hi. specialize (Hsame i Hi). unfold at_ in Hsame.
  now rewrite <- Z.add_assoc.
Qed.

(** X26: [v.starts_with(x)] holds exactly when [x] is not longer than [v] and [v]
    with all but its first [x.size()] characters removed equals [x];
    [v.ends_with(x)] likewise with all but the last [x.size()] characters
    removed. *)
Theorem affix_as_trimmed_equal (mem : memory) (v x : string_view) :
  is_size (size v) -> is_size (size x) ->
  (starts_with mem v x = true <->
   size x <= size v /\
   op_eq mem (remove_suffix v (size v - size x)) x = true) /\
  (ends_with mem v x = true <->
   size x <= size v /\
   op_eq mem (remove_prefix v (size v - size x)) x = true).
Proof.
  unfold is_size. intros Hv Hx.
  rewrite starts_with_true, ends_with_true. split.
  - split; intros [Hle H]; (split; [exact Hle|]).
    + rewrite remove_suffix_small by (unfold is_size; lia).
      apply op_eq_true. unfold size, data in *. cbn [_ptr _len].
      split; [lia|].
      replace (_len v - (_len v - _len x)) with (_len x) by lia. exact H.
    + rewrite remove_suffix_small in H by (unfold is_size; lia).
      apply op_eq_true in H. unfold size, data in *. cbn [_ptr _len] in H.
      destruct H as [E H].
      replace (_len v - (_len v - _len x)) with (_len x) in H by lia. exact H.
  - split; intros [Hle H]; (split; [exact Hle|]).
    + rewrite remove_prefix_small by (unfold is_size; lia).
      apply op_eq_true. unfold size, data in *. cbn [_ptr _len].
      split; [lia|].
      replace (_len v - (_len v - _len x)) with (_len x) by lia.
      replace (_ptr v + (_len v - _len x)) with (_ptr v + _len v - _len x)
        by lia.
      exact H.
    + rewrite remove_prefix_small in H by (unfold is_size; lia).
      apply op_eq_true in H. unfold size, data in *. cbn [_ptr _len] in H.
      destruct H as [E H].
      replace (_len v - (_len v - _len x)) with (_len x) in H by lia.
      replace (_ptr v + (_len v - _len x)) with (_ptr v + _len v - _len x)
        in H by lia.
      exact H.
Qed.

(** X27: [find(const char* s, pos)] on a string whose first zero character is at
    offset [len] gives what [find(s, pos, len)] gives. *)
Theorem find_cstr_as_range (fuel : nat) (mem : memory) (v : string_view)
    (s : const_pointer) (len pos : Z) :
  is_size len ->
  mem (s + len) = x00 ->
  (forall i, 0 <= i < len -> mem (s + i) <> x00) ->
  len < Z.of_nat fuel ->
  find_cstr fuel mem v s pos = find_range fuel mem v s pos len.
Proof.
  intros Hlen Hz Hnz Hfuel.
  unfold find_cstr, find_range, string_view_of_cstr, strlen.
  pose proof (strlen_loop_spec mem s len fuel 0) as H.
  unfold is_size in Hlen.
  rewrite Z.add_0_r in H. rewrite H by (assumption || lia).
  cbn [option_map]. now rewrite to_size_small by exact Hlen.
Qed.

End StringView.

(** ** Concrete runs, with a [size_type] of 64 bits *)

(** Scenarios of the specification. *)

Example find_world :
  find size_t_bits 20 demo_memory hello_world world 0 = Some 6.
Proof. vm_compute. reflexivity. Qed.

Example find_xyz :
  find size_t_bits 20 demo_memory hello_world xyz 0 = Some (npos size_t_bits).
Proof. vm_compute. reflexivity. Qed.

Example find_from_past_match :
  find size_t_bits 20 demo_memory hello_world world 7 = Some (npos size_t_bits).
Proof. vm_compute. reflexivity. Qed.

Example hello_starts_with_he :
  starts_with demo_memory hello (mk_string_view 100 2) = true /\
  ends_with demo_memory hello (mk_string_view 103 2) = true /\
  starts_with demo_memory hello (mk_string_view 103 2) = false.
Proof. vm_compute. repeat split. Qed.

Example hello_substr :
  substr size_t_bits hello 2 (npos size_t_bits) = inr (mk_string_view 102 3) /\
  substr size_t_bits hello 2 2 = inr (mk_string_view 102 2) /\
  substr size_t_bits hello 10 (npos size_t_bits) =
    inl (out_of_range "mserialize::string_view::substr").
Proof. vm_compute. repeat split. Qed.

Example empty_view_runs :
  empty string_view_default = true /\
  find size_t_bits 0 demo_memory string_view_default string_view_default 0
    = Some 0 /\
  find size_t_bits 5 demo_memory string_view_default (mk_string_view 100 1) 0
    = Some (npos size_t_bits).
Proof. vm_compute. repeat split. Qed.

Example remove_suffix_all :
  size (remove_suffix size_t_bits hello 100) = 0.
Proof. vm_compute. reflexivity. Qed.

(** ** The theorems at concrete inputs *)

Ltac size_ok := unfold is_size, modulus, size, size_t_bits; simpl; lia.

Lemma starts_with_spec_witness :
  (starts_with demo_memory hello (mk_string_view 100 2) = true <->
     size hello >= size (mk_string_view 100 2) /\
     forall i, 0 <= i < size (mk_string_view 100 2) ->
               at_ demo_memory hello i = at_ demo_memory (mk_string_view 100 2) i) /\
  (empty (mk_string_view 100 2) = true ->
   starts_with demo_memory hello (mk_string_view 100 2) = true).
Proof.
  apply (starts_with_spec size_t_bits demo_memory hello (mk_string_view 100 2));
    size_ok.
Defined.

Lemma empty_views_equal_witness :
  op_eq demo_memory string_view_default (clear hello) = true /\
  op_ne demo_memory string_view_default (clear hello) = false.
Proof.
  apply (empty_views_equal size_t_bits demo_memory
           string_view_default (clear hello)); reflexivity.
Defined.

Lemma remove_prefix_twice_witness :
  remove_prefix size_t_bits (remove_prefix size_t_bits hello_world 3) 4 =
  remove_prefix size_t_bits hello_world (to_size size_t_bits (3 + 4)).
Proof.
  apply (remove_prefix_twice size_t_bits hello_world 3 4); size_ok.
Defined.

Lemma to_string_round_trip_witness :
  to_string demo_memory (string_view_of_string size_t_bits world_string) =
    str_chars world_string.
Proof.
  apply (to_string_round_trip size_t_bits demo_memory world_string).
  - intros i Hi. simpl in Hi.
    do 5 (destruct i as [|i]; [reflexivity|]). lia.
  - size_ok.
Defined.

Lemma find_empty_needle_witness :
  (3 <= size hello ->
   find size_t_bits 0 demo_memory hello string_view_default 3 = Some 3) /\
  (3 > size hello ->
   find size_t_bits 0 demo_memory hello string_view_default 3 =
     Some (npos size_t_bits)).
Proof.
  apply (find_empty_needle size_t_bits 0 demo_memory hello string_view_default 3).
  reflexivity.
Defined.

Lemma find_spec_witness :
  exists r,
    find size_t_bits 20 demo_memory hello_world world 0 = Some r /\
    ((exists q, 0 <= q /\ occurs_at demo_memory hello_world world q) ->
       0 <= r /\ occurs_at demo_memory hello_world world r /\
       forall q, 0 <= q < r -> ~ occurs_at demo_memory hello_world world q) /\
    ((forall q, 0 <= q -> ~ occurs_at demo_memory hello_world world q) ->
       r = npos size_t_bits) /\
    (0 > size hello_world -> r = npos size_t_bits).
Proof.
  apply (find_spec size_t_bits 20 demo_memory hello_world world 0); size_ok.
Defined.

(** ** Where the unsigned arithmetic wraps *)

(** C5, as stated, fails when [n + m] overflows: removing [npos] and then [2]
    characters empties the view, while removing [(npos + 2) mod 2^64 = 1]
    character leaves ten of the eleven. *)
Lemma remove_prefix_twice_overflow :
  remove_prefix size_t_bits
    (remove_prefix size_t_bits hello_world (npos size_t_bits)) 2 <>
  remove_prefix size_t_bits hello_world
    (to_size size_t_bits (npos size_t_bits + 2)).
Proof. vm_compute. discriminate. Qed.

(** C2: on the five characters of ["hello"], [substr(3, npos - 1)] has
    [pos + n] wrap around to [1], which is not above [size()]; the count is
    kept as it is and the result has [2^64 - 2] characters, where
    [min(n, size() - pos)] is [2]. *)
Theorem substr_count_wraps :
  substr size_t_bits hello 3 18446744073709551614 =
    inr (mk_string_view 103 18446744073709551614) /\
  Z.min 18446744073709551614 (size hello - 3) = 2 /\
  to_size size_t_bits (3 + 18446744073709551614) = 1.
Proof. vm_compute. repeat split. Qed.

(** C3: on the five characters of ["hello"], [substr(5, 2^64 - 5)] starts at
    [size()], does not throw, and returns a view of [2^64 - 5] characters
    instead of an empty one: [pos + n] wraps around to [0]. *)
Theorem substr_at_size_wraps :
  substr size_t_bits hello 5 18446744073709551611 =
    inr (mk_string_view 105 18446744073709551611) /\
  to_size size_t_bits (5 + 18446744073709551611) = 0.
Proof. vm_compute. repeat split. Qed.

(** ** The further theorems at concrete inputs *)

Ltac five_cases i :=
  let C := fresh "C" in
  assert (C : i = 0 \/ i = 1 \/ i = 2 \/ i = 3 \/ i = 4) by lia;
  destruct C as [->|[->|[->|[->| ->]]]].

Lemma to_string_index_witness :
  Z.of_nat (List.length (to_string demo_memory hello)) = size hello /\
  forall i, 0 <= i < size hello ->
    nth (Z.to_nat i) (to_string demo_memory hello) x00 = at_ demo_memory hello i.
Proof. apply (to_string_index demo_memory hello). unfold size. simpl. lia. Defined.

Lemma op_eq_to_string_witness :
  op_eq demo_memory world world' = true <->
  to_string demo_memory world = to_string demo_memory world'.
Proof.
  apply (op_eq_to_string demo_memory world world'); unfold size; simpl; lia.
Defined.

Lemma op_eq_trans_witness : op_eq demo_memory world world = true.
Proof.
  apply (op_eq_trans demo_memory world world' world); reflexivity.
Defined.

Lemma to_string_remove_prefix_witness :
  to_string demo_memory (remove_prefix size_t_bits hello_world 6) =
  skipn (Z.to_nat 6) (to_string demo_memory hello_world).
Proof.
  apply (to_string_remove_prefix size_t_bits demo_memory hello_world 6);
    size_ok.
Defined.

Lemma to_string_remove_suffix_witness :
  to_string demo_memory (remove_suffix size_t_bits hello_world 6) =
  firstn (Z.to_nat (size hello_world - 6)) (to_string demo_memory hello_world).
Proof.
  apply (to_string_remove_suffix size_t_bits demo_memory hello_world 6);
    size_ok.
Defined.

Lemma to_string_substr_witness :
  exists e,
    substr size_t_bits hello 2 2 = inr e /\
    to_string demo_memory e =
      firstn (Z.to_nat 2) (skipn (Z.to_nat 2) (to_string demo_memory hello)).
Proof.
  apply (to_string_substr size_t_bits demo_memory hello 2 2); size_ok.
Defined.

Lemma ends_with_spec_witness : ends_with demo_memory hello lo = true.
Proof.
  apply (proj2 (ends_with_spec demo_memory hello lo)).
  split; [unfold size; simpl; lia|].
  intros i Hi. unfold size in *. simpl in *.
  assert (C : i = 0 \/ i = 1) by lia. destruct C as [->| ->]; reflexivity.
Defined.

Lemma starts_with_char_as_view_witness :
  starts_with_char demo_memory hello (demo_memory 100) =
  starts_with demo_memory hello (string_view_of_range 100 1).
Proof.
  apply (starts_with_char_as_view size_t_bits demo_memory hello
           (demo_memory 100) 100); [size_ok|reflexivity].
Defined.

Lemma ends_with_char_as_view_witness :
  ends_with_char size_t_bits demo_memory hello (demo_memory 104) =
  ends_with demo_memory hello (string_view_of_range 104 1).
Proof.
  apply (ends_with_char_as_view size_t_bits demo_memory hello
           (demo_memory 104) 104); [size_ok|reflexivity].
Defined.

Lemma starts_with_order_witness :
  starts_with demo_memory hello_world he = true.
Proof.
  apply (proj1 (proj2 (starts_with_order demo_memory hello_world hello he)));
    reflexivity.
Defined.

Lemma starts_with_prefix_witness :
  starts_with demo_memory hello he = true <->
  exists rest, to_string demo_memory hello = to_string demo_memory he ++ rest.
Proof.
  apply (starts_with_prefix demo_memory hello he); unfold size; simpl; lia.
Defined.

Lemma ends_with_suffix_witness :
  ends_with demo_memory hello lo = true <->
  exists front, to_string demo_memory hello = front ++ to_string demo_memory lo.
Proof.
  apply (ends_with_suffix demo_memory hello lo); unfold size; simpl; lia.
Defined.

Lemma remove_suffix_twice_witness :
  remove_suffix size_t_bits (remove_suffix size_t_bits hello_world 3) 4 =
  remove_suffix size_t_bits hello_world (to_size size_t_bits (3 + 4)).
Proof.
  apply (remove_suffix_twice size_t_bits hello_world 3 4); size_ok.
Defined.

Lemma trimmed_view_inside_witness :
  (cbegin hello <= cbegin (remove_prefix size_t_bits hello 9) /\
   cend (remove_prefix size_t_bits hello 9) = cend hello /\
   size (remove_prefix size_t_bits hello 9) = size hello - Z.min 9 (size hello)) /\
  (cbegin (remove_suffix size_t_bits hello 9) = cbegin hello /\
   cend (remove_suffix size_t_bits hello 9) <= cend hello /\
   size (remove_suffix size_t_bits hello 9) = size hello - Z.min 9 (size hello)).
Proof.
  apply (trimmed_view_inside size_t_bits hello 9); size_ok.
Defined.

Lemma trimming_as_substr_witness :
  substr size_t_bits hello 2 (npos size_t_bits) =
    inr (remove_prefix size_t_bits hello 2) /\
  substr size_t_bits hello 0 (size hello - 2) =
    inr (remove_suffix size_t_bits hello 2).
Proof.
  apply (trimming_as_substr size_t_bits hello 2); size_ok.
Defined.

Lemma remove_prefix_suffix_commute_witness :
  remove_suffix size_t_bits (remove_prefix size_t_bits hello_world 6) 2 =
    remove_prefix size_t_bits (remove_suffix size_t_bits hello_world 2) 6 /\
  remove_suffix size_t_bits (remove_prefix size_t_bits hello_world 6) 2 =
    mk_string_view (_ptr hello_world + 6) (size hello_world - 6 - 2).
Proof.
  apply (remove_prefix_suffix_commute size_t_bits hello_world 6 2); size_ok.
Defined.

Lemma substr_throws_exactly_witness :
  substr size_t_bits hello 10 3 =
    inl (out_of_range "mserialize::string_view::substr").
Proof.
  apply (proj1 (proj1 (substr_throws_exactly size_t_bits hello 10 3))).
  unfold size. simpl. lia.
Defined.

Lemma substr_without_overflow_witness :
  exists e,
    substr size_t_bits hello 2 9 = inr e /\
    data e = data hello + 2 /\
    size e = Z.min 9 (size hello - 2) /\
    cbegin hello <= cbegin e /\ cend e <= cend hello.
Proof.
  apply (substr_without_overflow size_t_bits hello 2 9); size_ok.
Defined.

Lemma substr_of_substr_witness :
  exists e,
    substr size_t_bits hello_world 2 7 = inr e /\
    substr size_t_bits e 3 9 =
      substr size_t_bits hello_world (2 + 3) (Z.min 9 (7 - 3)).
Proof.
  apply (substr_of_substr size_t_bits hello_world 2 7 3 9); size_ok.
Defined.

Lemma find_char_spec_witness :
  exists r,
    find_char size_t_bits 20 demo_memory hello_world 104 5 = Some r /\
    ((r = npos size_t_bits /\
      forall i, 5 <= i < size hello_world ->
                at_ demo_memory hello_world i <> demo_memory 104) \/
     (5 <= r < size hello_world /\
      at_ demo_memory hello_world r = demo_memory 104 /\
      forall i, 5 <= i < r ->
                at_ demo_memory hello_world i <> demo_memory 104)).
Proof.
  apply (find_char_spec size_t_bits 20 demo_memory hello_world
           (demo_memory 104) 104 5); [reflexivity|size_ok..].
Defined.

Lemma find_zero_starts_with_witness :
  find size_t_bits 20 demo_memory hello he 0 = Some 0 <->
  starts_with demo_memory hello he = true.
Proof.
  apply (find_zero_starts_with size_t_bits 20 demo_memory hello he); size_ok.
Defined.

Lemma find_after_remove_prefix_witness :
  exists r,
    find size_t_bits 20 demo_memory (remove_prefix size_t_bits hello_world 3)
      world 0 = Some r /\
    find size_t_bits 20 demo_memory hello_world world 3 =
      Some (if r =? npos size_t_bits then npos size_t_bits else 3 + r).
Proof.
  apply (find_after_remove_prefix size_t_bits 20 demo_memory hello_world
           world 3); size_ok.
Defined.

Lemma string_view_of_cstr_spec_witness :
  exists v,
    string_view_of_cstr size_t_bits 10 demo_memory 200 = Some v /\
    data v = 200 /\ size v = 5 /\
    forall i, 0 <= i < size v -> at_ demo_memory v i <> x00.
Proof.
  apply (string_view_of_cstr_spec size_t_bits 10 demo_memory 200 5).
  - size_ok.
  - reflexivity.
  - intros i Hi. five_cases i; vm_compute; discriminate.
  - simpl. lia.
Defined.


Lemma find_gives_equal_substr_witness :
  0 <= 6 /\ 6 + size world <= size hello_world /\
  exists e,
    substr size_t_bits hello_world 6 (size world) = inr e /\
    op_eq demo_memory e world = true.
Proof.
  apply (find_gives_equal_substr size_t_bits 20 demo_memory hello_world
           world 0 6); try size_ok.
  - reflexivity.
  - vm_compute. discriminate.
Defined.

Lemma affix_as_trimmed_equal_witness :
  (starts_with demo_memory hello he = true <->
   size he <= size hello /\
   op_eq demo_memory
     (remove_suffix size_t_bits hello (size hello - size he)) he = true) /\
  (ends_with demo_memory hello he = true <->
   size he <= size hello /\
   op_eq demo_memory
     (remove_prefix size_t_bits hello (size hello - size he)) he = true).
Proof.
  apply (affix_as_trimmed_equal size_t_bits demo_memory hello he); size_ok.
Defined.

Lemma find_cstr_as_range_witness :
  find_cstr size_t_bits 20 demo_memory hello_world 200 0 =
  find_range size_t_bits 20 demo_memory hello_world 200 0 5.
Proof.
  apply (find_cstr_as_range size_t_bits 20 demo_memory hello_world 200 5 0).
  - size_ok.
  - reflexivity.
  - intros i Hi. five_cases i; vm_compute; discriminate.
  - simpl. lia.
Defined.
